(** * Smart terminal status output (ui/terminal/smart_status.go)

    A shallow embedding of [smartStatusOutput], the renderer that keeps one
    overwritable status line at the bottom of a terminal while permanent
    lines are printed above it, together with the properties its
    specification states.

    Go strings and byte slices are sequences of bytes: they are modelled by
    [string], whose characters are the 256 values of [ascii].  Go's [int] is
    modelled by [Z]; the code does no arithmetic on it besides comparisons
    and [len(str)-1].  A run-time panic (slice or index out of range, close
    of a closed channel, a read through a nil pointer) is an explicit
    outcome of the methods.  The
    [io.Writer] is modelled by the bytes it has received so far; every
    method holds [s.lock] for its whole body, so the methods are modelled as
    atomic state transformers and the lock itself is not represented. *)

From Stdlib Require Import ZArith List Bool Lia.
From Stdlib Require Import Strings.Ascii Strings.String.

Import ListNotations.
Open Scope string_scope.
Open Scope Z_scope.

(** ** Panics and results *)

Inductive panic : Type :=
| SliceBoundsOutOfRange
| IndexOutOfRange
| CloseOfClosedChannel
| NilPointerDereference.

Inductive outcome (A : Type) : Type :=
| Ok (a : A)
| Panic (p : panic).

Arguments Ok {A} a.
Arguments Panic {A} p.

(** ** Go strings *)

Module GoString.

Definition len (s : string) : Z := Z.of_nat (String.length s).

(** [s[lo:hi]]: panics unless [0 <= lo <= hi <= len(s)]. *)
Definition slice (s : string) (lo hi : Z) : outcome string :=
  if (0 <=? lo) && (lo <=? hi) && (hi <=? len s)
  then Ok (substring (Z.to_nat lo) (Z.to_nat (hi - lo)) s)
  else Panic SliceBoundsOutOfRange.

(** [s[i]]: panics unless [0 <= i < len(s)]. *)
Definition at_ (s : string) (i : Z) : outcome ascii :=
  if (0 <=? i) && (i <? len s)
  then match get (Z.to_nat i) s with
       | Some c => Ok c
       | None => Panic IndexOutOfRange
       end
  else Panic IndexOutOfRange.

(** [strings.IndexRune(s, r)] for a rune below [utf8.RuneSelf]: the index of
    the first byte equal to [r], or [-1]. *)
Fixpoint IndexRune (s : string) (r : ascii) : Z :=
  match s with
  | EmptyString => -1
  | String c s' =>
      if Ascii.eqb c r then 0
      else let i := IndexRune s' r in
           if i =? -1 then -1 else i + 1
  end.

End GoString.

Import GoString.

(** ** Facts about byte strings *)

Module StringFacts.

Lemma append_assoc (a b c : string) : (a ++ b) ++ c = a ++ (b ++ c).
Proof. induction a as [|x a IH]; simpl; [reflexivity | now rewrite IH]. Qed.

Lemma append_nil_r (a : string) : a ++ "" = a.
Proof. induction a as [|x a IH]; simpl; [reflexivity | now rewrite IH]. Qed.

Lemma length_append (a b : string) :
  String.length (a ++ b) = (String.length a + String.length b)%nat.
Proof. induction a as [|x a IH]; simpl; [reflexivity | now rewrite IH]. Qed.

Lemma len_append (a b : string) : len (a ++ b) = len a + len b.
Proof. unfold len. rewrite length_append. lia. Qed.

Lemma len_nonneg (a : string) : 0 <= len a.
Proof. unfold len. lia. Qed.

Lemma len_zero (a : string) : len a = 0 <-> a = "".
Proof.
  unfold len. split.
  - destruct a; [reflexivity | simpl; lia].
  - intros ->. reflexivity.
Qed.

(** A non-empty string has a last byte. *)
Lemma last_byte (s : string) :
  s <> "" -> exists p c, s = p ++ String c "".
Proof.
  induction s as [|x s IH]; intros Hne; [congruence|].
  destruct s as [|y s'].
  - exists "", x. reflexivity.
  - destruct IH as (p & c & E); [discriminate|].
    exists (String x p), c. simpl. now rewrite E.
Qed.

Lemma get_last (p : string) (c : ascii) :
  get (String.length p) (p ++ String c "") = Some c.
Proof. induction p as [|x p IH]; simpl; [reflexivity | exact IH]. Qed.

Lemma at_last (p : string) (c : ascii) :
  at_ (p ++ String c "") (len (p ++ String c "") - 1) = Ok c.
Proof.
  unfold at_. rewrite len_append.
  replace (len (String c "")) with 1 by reflexivity.
  replace (len p + 1 - 1) with (len p) by lia.
  pose proof (len_nonneg p) as Hp.
  replace ((0 <=? len p) && (len p <? len p + 1)) with true
    by (symmetry; apply andb_true_iff; split; [apply Z.leb_le | apply Z.ltb_lt]; lia).
  unfold len. rewrite Nat2Z.id, get_last. reflexivity.
Qed.

Lemma append_inj_last (p q : string) (c d : ascii) :
  p ++ String c "" = q ++ String d "" -> p = q /\ c = d.
Proof.
  revert q. induction p as [|x p IH]; intros [|y q] E; simpl in E.
  - inversion E. auto.
  - inversion E as [[E1 E2]]. destruct q; discriminate.
  - inversion E as [[E1 E2]]. destruct p; discriminate.
  - inversion E as [[E1 E2]]. destruct (IH _ E2) as [-> ->]. auto.
Qed.

Lemma substring_all (s : string) : substring 0 (String.length s) s = s.
Proof. induction s as [|x s IH]; simpl; [reflexivity | now rewrite IH]. Qed.

Lemma substring_prefix (p q : string) :
  substring 0 (String.length p) (p ++ q) = p.
Proof.
  induction p as [|x p IH]; simpl.
  - destruct q; reflexivity.
  - now rewrite IH.
Qed.

(** Every string splits at any length up to its own. *)
Lemma split_at (n : nat) (s : string) :
  (n <= String.length s)%nat ->
  exists p q, s = p ++ q /\ String.length p = n.
Proof.
  revert s. induction n as [|n IH]; intros s Hn.
  - exists "", s. auto.
  - destruct s as [|x s]; simpl in Hn; [lia|].
    destruct (IH s) as (p & q & -> & Hp); [lia|].
    exists (String x p), q. simpl. auto.
Qed.

Lemma slice_prefix (p q : string) :
  slice (p ++ q) 0 (len p) = Ok p.
Proof.
  unfold slice. rewrite len_append.
  pose proof (len_nonneg p) as Hp. pose proof (len_nonneg q) as Hq.
  replace ((0 <=? 0) && (0 <=? len p) && (len p <=? len p + len q)) with true
    by (symmetry; rewrite !andb_true_iff; repeat split; apply Z.leb_le; lia).
  rewrite Z.sub_0_r. unfold len. rewrite Nat2Z.id. simpl Z.to_nat.
  now rewrite substring_prefix.
Qed.

Lemma IndexRune_lower (s : string) (r : ascii) : -1 <= IndexRune s r.
Proof.
  induction s as [|x s IH]; cbn [IndexRune]; [lia|].
  destruct (Ascii.eqb x r); [lia|].
  cbv zeta. destruct (IndexRune s r =? -1); lia.
Qed.

(** [IndexRune] finds the first occurrence and nothing before it. *)
Lemma IndexRune_none (s : string) (r : ascii) :
  IndexRune s r = -1 ->
  forall p q, s <> p ++ String r q.
Proof.
  induction s as [|x s IH]; cbn [IndexRune]; cbv zeta; intros E p q.
  - destruct p; discriminate.
  - destruct (Ascii.eqb x r) eqn:Ex; [discriminate|].
    destruct (IndexRune s r =? -1) eqn:Ei.
    + apply Z.eqb_eq in Ei. destruct p as [|y p]; simpl; intros F.
      * inversion F; subst. now rewrite Ascii.eqb_refl in Ex.
      * inversion F; subst. now apply (IH Ei p q).
    + pose proof (IndexRune_lower s r). lia.
Qed.

Lemma IndexRune_some (s : string) (r : ascii) :
  IndexRune s r <> -1 ->
  exists p q, s = p ++ String r q /\ len p = IndexRune s r /\
              IndexRune p r = -1.
Proof.
  induction s as [|x s IH]; cbn [IndexRune]; cbv zeta; intros E;
    [congruence|].
  destruct (Ascii.eqb x r) eqn:Ex.
  - apply Ascii.eqb_eq in Ex. subst x. exists "", s. auto.
  - destruct (IndexRune s r =? -1) eqn:Ei; [congruence|].
    apply Z.eqb_neq in Ei. destruct (IH Ei) as (p & q & -> & Hl & Hp).
    exists (String x p), q. cbn [IndexRune append]. rewrite Ex, Hp.
    repeat split.
    unfold len in *. simpl String.length. lia.
Qed.

End StringFacts.

Import StringFacts.

(** The bytes the renderer sends to the terminal. *)
Definition CR : string := String "013"%char "".
Definition LF : string := String "010"%char "".
Definition ESC : string := String "027"%char "".
Definition newline : ascii := "010"%char.

(** ["\x1b[K"], ["\x1b[1m"] and ["\x1b[0m"]. *)
Definition clearEOL : string := ESC ++ "[K".
Definition boldOn : string := ESC ++ "[1m".
Definition boldOff : string := ESC ++ "[0m".

(** ** The status package's types, as far as the renderer reads them *)

Definition MsgLevel : Type := Z.

Record Action : Type := {
  Description : string;
  Command : string
}.

Record ActionResult : Type := {
  action : Action;          (* the embedded *Action *)
  Output : string;
  Error : option string
}.

Section Renderer.

(** [status.StatusLvl], the threshold of [Message], and the type
    [status.Counts] are declared in the status package. *)
Variable StatusLvl : MsgLevel.
Variable Counts : Type.

(** The [formatter] the renderer is built with. *)
Record formatter : Type := {
  message : MsgLevel -> string -> string;
  progress : Counts -> string;
  result : ActionResult -> string
}.

Record smartStatusOutput : Type := {
  writer : string;                      (* bytes written to the io.Writer *)
  fmtr : formatter;
  haveBlankLine : bool;
  termWidth : Z;
  sigwinchNotify : bool;                (* registered with signal.Notify *)
  sigwinchClosed : bool;                (* close(s.sigwinch) has run *)
  sigwinchHandled : option (list bool)  (* nil, or the values sent on it *)
}.

Definition set_writer (w : string) (s : smartStatusOutput) :=
  {| writer := w; fmtr := fmtr s; haveBlankLine := haveBlankLine s;
     termWidth := termWidth s; sigwinchNotify := sigwinchNotify s;
     sigwinchClosed := sigwinchClosed s;
     sigwinchHandled := sigwinchHandled s |}.

Definition set_haveBlankLine (b : bool) (s : smartStatusOutput) :=
  {| writer := writer s; fmtr := fmtr s; haveBlankLine := b;
     termWidth := termWidth s; sigwinchNotify := sigwinchNotify s;
     sigwinchClosed := sigwinchClosed s;
     sigwinchHandled := sigwinchHandled s |}.

Definition set_termWidth (w : Z) (s : smartStatusOutput) :=
  {| writer := writer s; fmtr := fmtr s; haveBlankLine := haveBlankLine s;
     termWidth := w; sigwinchNotify := sigwinchNotify s;
     sigwinchClosed := sigwinchClosed s;
     sigwinchHandled := sigwinchHandled s |}.

Definition set_sigwinchNotify (b : bool) (s : smartStatusOutput) :=
  {| writer := writer s; fmtr := fmtr s; haveBlankLine := haveBlankLine s;
     termWidth := termWidth s; sigwinchNotify := b;
     sigwinchClosed := sigwinchClosed s;
     sigwinchHandled := sigwinchHandled s |}.

Definition set_sigwinchClosed (b : bool) (s : smartStatusOutput) :=
  {| writer := writer s; fmtr := fmtr s; haveBlankLine := haveBlankLine s;
     termWidth := termWidth s; sigwinchNotify := sigwinchNotify s;
     sigwinchClosed := b;
     sigwinchHandled := sigwinchHandled s |}.

Definition set_sigwinchHandled (h : option (list bool))
    (s : smartStatusOutput) :=
  {| writer := writer s; fmtr := fmtr s; haveBlankLine := haveBlankLine s;
     termWidth := termWidth s; sigwinchNotify := sigwinchNotify s;
     sigwinchClosed := sigwinchClosed s;
     sigwinchHandled := h |}.

(** ** The monad of methods: state of the receiver, or a panic *)

Definition M (A : Type) : Type :=
  smartStatusOutput -> outcome (A * smartStatusOutput).

Definition ret {A : Type} (a : A) : M A := fun s => Ok (a, s).

Definition bind {A B : Type} (m : M A) (k : A -> M B) : M B :=
  fun s => match m s with
           | Ok (a, s') => k a s'
           | Panic p => Panic p
           end.

Definition lift {A : Type} (r : outcome A) : M A :=
  fun s => match r with
           | Ok a => Ok (a, s)
           | Panic p => Panic p
           end.

Definition gets {A : Type} (f : smartStatusOutput -> A) : M A :=
  fun s => Ok (f s, s).

Definition modify (f : smartStatusOutput -> smartStatusOutput) : M unit :=
  fun s => Ok (tt, f s).

Notation "x <- m ;; k" := (bind m (fun x => k))
  (at level 61, m at next level, right associativity).
Notation "m ;; k" := (bind m (fun _ => k))
  (at level 61, right associativity).

(** [fmt.Fprint(s.writer, a...)] with string operands writes them one after
    the other (a space is added only between operands that are not
    strings); [fmt.Fprintln(s.writer)] writes a newline.  The error they
    return is dropped by the code. *)
Definition Fprint (args : list string) : M unit :=
  modify (fun s => set_writer (writer s ++ String.concat "" args) s).

Definition Fprintln : M unit :=
  modify (fun s => set_writer (writer s ++ LF) s).

(** ** The methods *)

(** [termWidth(s.writer)] is answered by the terminal: its answer
    [(w, ok)] is an input of the model. *)
Definition updateTermSize (q : Z * bool) : M unit :=
  let '(w, ok) := q in
  if ok then modify (set_termWidth w) else ret tt.

Definition requestLine : M unit :=
  blank <- gets haveBlankLine ;;
  if negb blank then
    Fprintln ;;
    modify (set_haveBlankLine true)
  else ret tt.

Definition print (str : string) : M unit :=
  blank <- gets haveBlankLine ;;
  (if negb blank then
     Fprint [CR; clearEOL] ;;
     modify (set_haveBlankLine true)
   else ret tt) ;;
  Fprint [str] ;;
  (if len str =? 0 then Fprint [LF]
   else
     c <- lift (at_ str (len str - 1)) ;;
     if negb (Ascii.eqb c newline) then Fprint [LF] else ret tt).

Definition elide (str : string) : M string :=
  w <- gets termWidth ;;
  if len str >? w then lift (slice str 0 w) else ret str.

Definition statusLine (str : string) : M unit :=
  let idx := IndexRune str newline in
  str <- (if negb (idx =? -1) then lift (slice str 0 idx) else ret str) ;;
  w <- gets termWidth ;;
  str <- (if w >? 0 then elide str else ret str) ;;
  let start := CR ++ boldOn in
  let end_ := boldOff ++ clearEOL in
  Fprint [start; str; end_] ;;
  modify (set_haveBlankLine false).

Definition startSigwinch : M unit :=
  modify (set_sigwinchNotify true).

(** [signal.Stop] may be repeated; [close] of a closed channel panics. *)
Definition stopSigwinch : M unit :=
  modify (set_sigwinchNotify false) ;;
  closed <- gets sigwinchClosed ;;
  if closed then lift (Panic CloseOfClosedChannel)
  else modify (set_sigwinchClosed true).

(** One iteration of the goroutine started by [startSigwinch]. *)
Definition sigwinchReceived (q : Z * bool) : M unit :=
  updateTermSize q ;;
  h <- gets sigwinchHandled ;;
  match h with
  | Some sent => modify (set_sigwinchHandled (Some (sent ++ [true])%list))
  | None => ret tt
  end.

Definition NewSmartStatusOutput (w : string) (f : formatter)
    (q : Z * bool) : outcome smartStatusOutput :=
  let s := {| writer := w; fmtr := f; haveBlankLine := true;
              termWidth := 0; sigwinchNotify := false;
              sigwinchClosed := false; sigwinchHandled := None |} in
  match (updateTermSize q ;; startSigwinch) s with
  | Ok (_, s') => Ok s'
  | Panic p => Panic p
  end.

Definition Message (level : MsgLevel) (msg : string) : M unit :=
  if level <? StatusLvl then ret tt
  else
    f <- gets fmtr ;;
    let str := message f level msg in
    if level >? StatusLvl then print str else statusLine str.

Definition StartAction (a : Action) (counts : Counts) : M unit :=
  let str := Description a in
  let str := if String.eqb str "" then Command a else str in
  f <- gets fmtr ;;
  let progress := progress f counts in
  statusLine (progress ++ str).

Definition FinishAction (r : ActionResult) (counts : Counts) : M unit :=
  let str := Description (action r) in
  let str := if String.eqb str "" then Command (action r) else str in
  f <- gets fmtr ;;
  let progress := progress f counts ++ str in
  let output := result f r in
  if negb (String.eqb output "") then
    statusLine progress ;;
    requestLine ;;
    print output
  else
    statusLine progress.

Definition Flush : M unit :=
  stopSigwinch ;;
  requestLine.

Definition Write (p : string) : M (Z * option string) :=
  print p ;;
  ret (len p, None).

(** ** Sequences of calls

    The callers' events, in the order in which they take the lock.  A
    [Sigwinch] event is one delivery of the resize signal together with the
    terminal's answer to the width query; none is delivered once the
    subscription has been stopped. *)

Inductive event : Type :=
| EvMessage (level : MsgLevel) (msg : string)
| EvStartAction (a : Action) (counts : Counts)
| EvFinishAction (r : ActionResult) (counts : Counts)
| EvWrite (p : string)
| EvFlush
| EvSigwinch (q : Z * bool).

Definition step (e : event) : M unit :=
  match e with
  | EvMessage level msg => Message level msg
  | EvStartAction a counts => StartAction a counts
  | EvFinishAction r counts => FinishAction r counts
  | EvWrite p => Write p ;; ret tt
  | EvFlush => Flush
  | EvSigwinch q =>
      on <- gets sigwinchNotify ;;
      if on then sigwinchReceived q else ret tt
  end.

Fixpoint run (es : list event) : M unit :=
  match es with
  | [] => ret tt
  | e :: es' => step e ;; run es'
  end.

(** The renderer after construction on a fresh sink and the events [es]. *)
Definition session (f : formatter) (q : Z * bool) (es : list event)
    : outcome smartStatusOutput :=
  match NewSmartStatusOutput "" f q with
  | Ok s0 =>
      match run es s0 with
      | Ok (_, s) => Ok s
      | Panic p => Panic p
      end
  | Panic p => Panic p
  end.

(** ** Calls as the callers make them

    [StartAction] takes a [*status.Action], and the [status.ActionResult]
    given to [FinishAction] embeds one.  The pointer may be nil: reading
    [Description] through it is the first statement of either method, and
    panics then, before the lock is taken and before anything is written.
    The methods above describe what follows a successful read. *)

Record ActionResultArg : Type := {
  ActionPtr : option Action;    (* the embedded *Action, nil or not *)
  OutputArg : string;
  ErrorArg : option string
}.

Definition deref {A : Type} (ptr : option A) : outcome A :=
  match ptr with
  | Some a => Ok a
  | None => Panic NilPointerDereference
  end.

Inductive call : Type :=
| CallMessage (level : MsgLevel) (msg : string)
| CallStartAction (a : option Action) (counts : Counts)
| CallFinishAction (r : ActionResultArg) (counts : Counts)
| CallWrite (p : string)
| CallFlush
| Resize (q : Z * bool).

(** The event a call amounts to once its pointer has been read. *)
Definition enter (c : call) : outcome event :=
  match c with
  | CallMessage level msg => Ok (EvMessage level msg)
  | CallStartAction a counts =>
      match deref a with
      | Ok a' => Ok (EvStartAction a' counts)
      | Panic p => Panic p
      end
  | CallFinishAction r counts =>
      match deref (ActionPtr r) with
      | Ok a' =>
          Ok (EvFinishAction
                {| action := a'; Output := OutputArg r;
                   Error := ErrorArg r |} counts)
      | Panic p => Panic p
      end
  | CallWrite p => Ok (EvWrite p)
  | CallFlush => Ok EvFlush
  | Resize q => Ok (EvSigwinch q)
  end.

Definition invoke (c : call) : M unit :=
  match enter c with
  | Ok e => step e
  | Panic p => lift (Panic p)
  end.

Fixpoint run_calls (cs : list call) : M unit :=
  match cs with
  | [] => ret tt
  | c :: cs' => invoke c ;; run_calls cs'
  end.

(** The renderer after construction on a fresh sink and the calls [cs]. *)
Definition call_session (f : formatter) (q : Z * bool) (cs : list call)
    : outcome smartStatusOutput :=
  match NewSmartStatusOutput "" f q with
  | Ok s0 =>
      match run_calls cs s0 with
      | Ok (_, s) => Ok s
      | Panic p => Panic p
      end
  | Panic p => Panic p
  end.

(** ** Vocabulary of the specification *)

(** The text ends on a line boundary. *)
Definition ends_with_newline (s : string) : Prop :=
  exists p, s = p ++ LF.

Definition contains_newline (s : string) : Prop :=
  exists p q, s = p ++ LF ++ q.

(** The cursor sits on an empty line: nothing was written yet, or the last
    byte written is a newline. *)
Definition on_blank_line (out : string) : Prop :=
  out = "" \/ ends_with_newline out.

(** The receiver with its sink and [haveBlankLine] replaced, every other
    field kept. *)
Definition with_output (w : string) (b : bool) (s : smartStatusOutput)
    : smartStatusOutput :=
  set_haveBlankLine b (set_writer w s).

(** The text up to its first newline, and its first [w] bytes. *)
Fixpoint firstLine (s : string) : string :=
  match s with
  | EmptyString => ""
  | String c s' => if Ascii.eqb c newline then "" else String c (firstLine s')
  end.

Definition hardCut (w : Z) (line : string) : string :=
  if 0 <? w then substring 0 (Z.to_nat w) line else line.

(** What [print] writes before and after the text. *)
Definition lead (blank : bool) : string :=
  if blank then "" else CR ++ clearEOL.

Fixpoint lastByte (s : string) : option ascii :=
  match s with
  | EmptyString => None
  | String c EmptyString => Some c
  | String _ s' => lastByte s'
  end.

Definition trailer (str : string) : string :=
  match lastByte str with
  | Some c => if Ascii.eqb c newline then "" else LF
  | None => LF
  end.

(** The bytes of a status line showing [shown]. *)
Definition rendered (shown : string) : string :=
  CR ++ boldOn ++ shown ++ boldOff ++ clearEOL.

(** The line [StartAction] and [FinishAction] show for an action. *)
Definition progressLine (f : formatter) (a : Action) (counts : Counts)
    : string :=
  progress f counts ++
  (if String.eqb (Description a) "" then Command a else Description a).

(** [haveBlankLine] tells the truth about the sink. *)
Definition accurate (s : smartStatusOutput) : Prop :=
  haveBlankLine s = true <-> on_blank_line (writer s).

(** The width query of a resize event failed. *)
Definition query_failed (e : event) : Prop :=
  match e with
  | EvSigwinch q => snd q = false
  | _ => True
  end.

(** A second [Flush] right after a first one returns normally (a second
    [close] of the channel would panic). *)
Definition second_Flush_harmless (s : smartStatusOutput) : Prop :=
  exists s1 s2, Flush s = Ok (tt, s1) /\ Flush s1 = Ok (tt, s2).

(** A status line set after a resize whose width query failed is shown
    without truncation. *)
Definition failed_query_disables_truncation : Prop :=
  forall (f : formatter) (q0 : Z * bool) (es : list event) (w : Z)
         (str : string) (s : smartStatusOutput),
    session f q0 (es ++ [EvSigwinch (w, false)]) = Ok s ->
    statusLine str s =
    Ok (tt, with_output (writer s ++ rendered (firstLine str)) false s).

(** [Flush] events. *)
Definition is_flush (e : event) : bool :=
  match e with
  | EvFlush => true
  | _ => false
  end.

(** The width the renderer should hold after the events [es], from the
    width [w]: the answer of the last resize query that succeeded while the
    subscription was on ([on]); [Flush] turns the subscription off. *)
Fixpoint width_after (on : bool) (w : Z) (es : list event) : Z :=
  match es with
  | [] => w
  | EvSigwinch (w', ok) :: es' =>
      width_after on (if on && ok then w' else w) es'
  | EvFlush :: es' => width_after false w es'
  | _ :: es' => width_after on w es'
  end.

(** A text as a permanent line: closed by a newline if it has none. *)
Definition permanent (text : string) : string := text ++ trailer text.

(** When [haveBlankLine] is false, a status line is the last thing written. *)
Definition status_last (s : smartStatusOutput) : Prop :=
  haveBlankLine s = false ->
  exists out shown,
    writer s = out ++ rendered shown /\ ~ contains_newline shown.

(** Calls that pass a nil action, and [Flush] calls. *)
Definition nil_action (c : call) : bool :=
  match c with
  | CallStartAction None _ => true
  | CallFinishAction r _ =>
      match ActionPtr r with
      | None => true
      | Some _ => false
      end
  | _ => false
  end.

Definition is_Flush_call (c : call) : bool :=
  match c with
  | CallFlush => true
  | _ => false
  end.

Definition call_flushes (cs : list call) : nat :=
  List.length (List.filter is_Flush_call cs).

(** ** Lemmas on the vocabulary *)

Lemma lastByte_append (p : string) (c : ascii) :
  lastByte (p ++ String c "") = Some c.
Proof.
  induction p as [|x p IH]; simpl; [reflexivity|].
  destruct (p ++ String c "") eqn:E; [destruct p; discriminate | exact IH].
Qed.

Lemma lastByte_some (s : string) (c : ascii) :
  lastByte s = Some c -> exists p, s = p ++ String c "".
Proof.
  induction s as [|x s IH]; simpl; intros H; [discriminate|].
  destruct s as [|y s'].
  - inversion H. exists "". reflexivity.
  - destruct (IH H) as [p E]. exists (String x p). simpl. now rewrite E.
Qed.

Lemma lastByte_none (s : string) : lastByte s = None -> s = "".
Proof.
  induction s as [|x s IH]; simpl; intros H; [reflexivity|].
  destruct s as [|y s']; [discriminate|]. specialize (IH H). discriminate.
Qed.

Lemma trailer_newline (str : string) :
  ends_with_newline str -> trailer str = "".
Proof.
  intros [p ->]. unfold trailer, LF. now rewrite lastByte_append.
Qed.

Lemma trailer_other (str : string) :
  ~ ends_with_newline str -> trailer str = LF.
Proof.
  intros H. unfold trailer.
  destruct (lastByte str) as [c|] eqn:E; [|reflexivity].
  destruct (Ascii.eqb c newline) eqn:Ec; [|reflexivity].
  exfalso. apply H. apply Ascii.eqb_eq in Ec. subst c.
  destruct (lastByte_some _ _ E) as [p ->]. now exists p.
Qed.

Lemma ends_with_newline_dec (str : string) :
  {ends_with_newline str} + {~ ends_with_newline str}.
Proof.
  destruct (lastByte str) as [c|] eqn:E.
  - destruct (Ascii.eqb c newline) eqn:Ec.
    + left. apply Ascii.eqb_eq in Ec. subst c.
      destruct (lastByte_some _ _ E) as [p ->]. now exists p.
    + right. intros [p ->]. unfold LF in E. rewrite lastByte_append in E.
      inversion E; subst. now rewrite Ascii.eqb_refl in Ec.
  - right. intros [p ->]. apply lastByte_none in E.
    destruct p; discriminate.
Qed.

Lemma ends_with_newline_trailer (str : string) :
  ends_with_newline (str ++ trailer str).
Proof.
  destruct (ends_with_newline_dec str) as [H|H].
  - rewrite (trailer_newline _ H), append_nil_r. exact H.
  - rewrite (trailer_other _ H). now exists str.
Qed.

Lemma ends_with_newline_append (a b : string) :
  ends_with_newline b -> ends_with_newline (a ++ b).
Proof. intros [p ->]. exists (a ++ p). now rewrite append_assoc. Qed.

Lemma rendered_not_blank (out shown : string) :
  ~ on_blank_line (out ++ rendered shown).
Proof.
  unfold rendered, clearEOL.
  replace (out ++ CR ++ boldOn ++ shown ++ boldOff ++ ESC ++ "[K")
    with ((out ++ CR ++ boldOn ++ shown ++ boldOff ++ ESC ++ "[")
            ++ String "K" "")
    by (now rewrite !append_assoc).
  intros [E | [p E]].
  - destruct (out ++ CR ++ boldOn ++ shown ++ boldOff ++ ESC ++ "[");
      discriminate.
  - apply append_inj_last in E. destruct E as [_ E]. discriminate.
Qed.

Lemma firstLine_no_newline (s : string) :
  IndexRune s newline = -1 -> firstLine s = s.
Proof.
  induction s as [|x s IH]; cbn [IndexRune firstLine]; cbv zeta;
    [reflexivity|].
  destruct (Ascii.eqb x newline); [discriminate|].
  destruct (IndexRune s newline =? -1) eqn:Ei.
  - apply Z.eqb_eq in Ei. intros _. now rewrite (IH Ei).
  - pose proof (IndexRune_lower s newline). lia.
Qed.

Lemma firstLine_prefix (p q : string) :
  IndexRune p newline = -1 -> firstLine (p ++ String newline q) = p.
Proof.
  induction p as [|x p IH]; cbn [IndexRune firstLine append]; cbv zeta.
  - reflexivity.
  - destruct (Ascii.eqb x newline); [discriminate|].
    destruct (IndexRune p newline =? -1) eqn:Ei.
    + apply Z.eqb_eq in Ei. intros _. now rewrite (IH Ei).
    + pose proof (IndexRune_lower p newline). lia.
Qed.

Lemma IndexRune_firstLine (s : string) :
  IndexRune (firstLine s) newline = -1.
Proof.
  induction s as [|x s IH]; cbn [firstLine]; [reflexivity|].
  destruct (Ascii.eqb x newline) eqn:Ex; [reflexivity|].
  cbn [IndexRune]. rewrite Ex, IH. reflexivity.
Qed.

(** The first line is the text itself, or what stands before its first
    newline. *)
Lemma firstLine_spec (s : string) :
  (s = firstLine s \/ exists rest, s = firstLine s ++ LF ++ rest) /\
  ~ contains_newline (firstLine s).
Proof.
  split.
  - destruct (Z.eq_dec (IndexRune s newline) (-1)) as [E|E].
    + left. now rewrite firstLine_no_newline.
    + right. destruct (IndexRune_some _ _ E) as (p & q & Es & _ & Hp).
      exists q. rewrite Es at 2. rewrite (firstLine_prefix _ _ Hp).
      exact Es.
  - intros (p & q & E).
    apply (IndexRune_none _ _ (IndexRune_firstLine s) p q). exact E.
Qed.

Lemma slice_firstLine (s : string) :
  IndexRune s newline <> -1 ->
  slice s 0 (IndexRune s newline) = Ok (firstLine s).
Proof.
  intros E. destruct (IndexRune_some _ _ E) as (p & q & Es & Hl & Hp).
  rewrite <- Hl. rewrite Es at 1 2. rewrite slice_prefix.
  now rewrite firstLine_prefix.
Qed.

Lemma substring_short (n : nat) (s : string) :
  (String.length s <= n)%nat -> substring 0 n s = s.
Proof.
  revert n. induction s as [|x s IH]; intros [|n] H; simpl in *;
    try reflexivity; try lia.
  now rewrite IH by lia.
Qed.

Lemma length_substring (n : nat) (s : string) :
  String.length (substring 0 n s) = Nat.min n (String.length s).
Proof.
  revert n. induction s as [|x s IH]; intros [|n]; simpl; try reflexivity.
  now rewrite IH.
Qed.

Lemma substring_is_prefix (n : nat) (s : string) :
  exists rest, s = substring 0 n s ++ rest.
Proof.
  revert n. induction s as [|x s IH]; intros [|n]; simpl.
  - now exists "".
  - now exists "".
  - now exists (String x s).
  - destruct (IH n) as [rest E]. exists rest. now rewrite <- E.
Qed.

(** ** What each method does to the receiver *)

Ltac run_monad :=
  cbv [bind gets modify ret lift Fprint Fprintln String.concat
       with_output set_writer set_haveBlankLine set_termWidth
       set_sigwinchNotify set_sigwinchClosed set_sigwinchHandled
       writer fmtr haveBlankLine termWidth sigwinchNotify sigwinchClosed
       sigwinchHandled negb].

Lemma updateTermSize_eq (q : Z * bool) (s : smartStatusOutput) :
  updateTermSize q s =
  Ok (tt, if snd q then set_termWidth (fst q) s else s).
Proof. destruct q as [w [|]]; reflexivity. Qed.

Lemma requestLine_eq (s : smartStatusOutput) :
  requestLine s =
  Ok (tt, if haveBlankLine s then s
          else with_output (writer s ++ LF) true s).
Proof. destruct s as [w f [|] tw n c h]; reflexivity. Qed.

Lemma print_eq (str : string) (s : smartStatusOutput) :
  print str s =
  Ok (tt, with_output
            (writer s ++ lead (haveBlankLine s) ++ str ++ trailer str)
            true s).
Proof.
  assert (T : forall s' : smartStatusOutput,
    (if len str =? 0 then Fprint [LF]
     else c <- lift (at_ str (len str - 1)) ;;
          if negb (Ascii.eqb c newline) then Fprint [LF] else ret tt) s' =
    Ok (tt, set_writer (writer s' ++ trailer str) s')).
  { intros s'. destruct (string_dec str "") as [->|Hne].
    - reflexivity.
    - destruct (last_byte str Hne) as (p & c & ->).
      replace (len (p ++ String c "") =? 0) with false
        by (symmetry; apply Z.eqb_neq; rewrite len_append;
            pose proof (len_nonneg p); cbn; lia).
      unfold bind at 1. unfold lift. rewrite at_last.
      unfold trailer. rewrite lastByte_append.
      destruct (Ascii.eqb c newline); cbn [negb]; [|reflexivity].
      destruct s'. run_monad. now rewrite append_nil_r. }
  destruct s as [w f [|] tw n c h]; unfold print.
  - unfold bind at 1. cbn [gets haveBlankLine negb].
    unfold bind at 1. cbn [ret]. unfold bind at 1.
    cbn [Fprint modify String.concat]. rewrite T.
    run_monad. cbn [lead append]. now rewrite !append_assoc.
  - unfold bind at 1. cbn [gets haveBlankLine negb].
    unfold bind at 1. unfold bind at 1.
    cbn [Fprint modify String.concat]. unfold bind at 1.
    cbn [Fprint modify String.concat]. rewrite T.
    run_monad. cbn [lead]. now rewrite !append_assoc.
Qed.

Lemma elide_eq (str : string) (s : smartStatusOutput) :
  0 <= termWidth s ->
  elide str s = Ok (substring 0 (Z.to_nat (termWidth s)) str, s).
Proof.
  intros Hw. unfold elide, bind, gets.
  destruct (len str >? termWidth s) eqn:E.
  - apply Z.gtb_lt in E. unfold lift, slice.
    replace ((0 <=? 0) && (0 <=? termWidth s) && (termWidth s <=? len str))
      with true
      by (symmetry; rewrite !andb_true_iff; repeat split; apply Z.leb_le; lia).
    now rewrite Z.sub_0_r.
  - unfold ret. rewrite substring_short; [reflexivity|].
    unfold len in E. rewrite Z.gtb_ltb in E. apply Z.ltb_ge in E. lia.
Qed.

Lemma elide_negative (str : string) (s : smartStatusOutput) :
  termWidth s < 0 -> elide str s = Panic SliceBoundsOutOfRange.
Proof.
  intros Hw. unfold elide, bind, gets. pose proof (len_nonneg str).
  replace (len str >? termWidth s) with true
    by (symmetry; apply Z.gtb_lt; lia).
  unfold lift, slice.
  replace (0 <=? termWidth s) with false by (symmetry; apply Z.leb_gt; lia).
  reflexivity.
Qed.

Lemma statusLine_eq (str : string) (s : smartStatusOutput) :
  statusLine str s =
  Ok (tt, with_output
            (writer s ++ rendered (hardCut (termWidth s) (firstLine str)))
            false s).
Proof.
  unfold statusLine. cbv zeta.
  assert (L : forall s' : smartStatusOutput,
    (if negb (IndexRune str newline =? -1)
     then lift (slice str 0 (IndexRune str newline)) else ret str) s' =
    Ok (firstLine str, s')).
  { intros s'. destruct (IndexRune str newline =? -1) eqn:E; cbn [negb].
    - apply Z.eqb_eq in E. unfold ret. now rewrite firstLine_no_newline.
    - apply Z.eqb_neq in E. unfold lift. now rewrite slice_firstLine. }
  unfold bind at 1. rewrite L.
  unfold bind at 1. cbn [gets].
  assert (C : (if termWidth s >? 0 then elide (firstLine str)
               else ret (firstLine str)) s =
              Ok (hardCut (termWidth s) (firstLine str), s)).
  { unfold hardCut. rewrite Z.gtb_ltb.
    destruct (0 <? termWidth s) eqn:E; [|reflexivity].
    apply Z.ltb_lt in E. apply elide_eq. lia. }
  unfold bind at 1. rewrite C.
  destruct s. run_monad. unfold rendered. cbn [append].
  now rewrite !append_assoc.
Qed.

Lemma stopSigwinch_eq (s : smartStatusOutput) :
  stopSigwinch s =
  if sigwinchClosed s then Panic CloseOfClosedChannel
  else Ok (tt, set_sigwinchClosed true (set_sigwinchNotify false s)).
Proof. destruct s as [w f b tw n [|] h]; reflexivity. Qed.

Lemma Flush_eq (s : smartStatusOutput) :
  Flush s =
  if sigwinchClosed s then Panic CloseOfClosedChannel
  else requestLine (set_sigwinchClosed true (set_sigwinchNotify false s)).
Proof.
  unfold Flush, bind. rewrite stopSigwinch_eq.
  destruct (sigwinchClosed s); reflexivity.
Qed.

Lemma Write_eq (p : string) (s : smartStatusOutput) :
  Write p s =
  Ok ((len p, None),
      with_output (writer s ++ lead (haveBlankLine s) ++ p ++ trailer p)
        true s).
Proof. unfold Write, bind. now rewrite print_eq. Qed.

Lemma StartAction_eq (a : Action) (counts : Counts)
    (s : smartStatusOutput) :
  StartAction a counts s = statusLine (progressLine (fmtr s) a counts) s.
Proof. reflexivity. Qed.

Lemma FinishAction_eq (r : ActionResult) (counts : Counts)
    (s : smartStatusOutput) :
  FinishAction r counts s =
  if String.eqb (result (fmtr s) r) ""
  then statusLine (progressLine (fmtr s) (action r) counts) s
  else (statusLine (progressLine (fmtr s) (action r) counts) ;;
        requestLine ;;
        print (result (fmtr s) r)) s.
Proof.
  unfold FinishAction, bind at 1, gets. cbv zeta. unfold progressLine.
  destruct (String.eqb (result (fmtr s) r) ""); reflexivity.
Qed.

Lemma Message_eq (level : MsgLevel) (msg : string)
    (s : smartStatusOutput) :
  Message level msg s =
  if level <? StatusLvl then Ok (tt, s)
  else if level >? StatusLvl then print (message (fmtr s) level msg) s
  else statusLine (message (fmtr s) level msg) s.
Proof.
  unfold Message. destruct (level <? StatusLvl); [reflexivity|].
  unfold bind, gets. destruct (level >? StatusLvl); reflexivity.
Qed.

Lemma sigwinchReceived_eq (q : Z * bool) (s : smartStatusOutput) :
  sigwinchReceived q s =
  Ok (tt, let s' := if snd q then set_termWidth (fst q) s else s in
          match sigwinchHandled s with
          | Some sent => set_sigwinchHandled (Some (sent ++ [true])%list) s'
          | None => s'
          end).
Proof.
  unfold sigwinchReceived, bind. rewrite updateTermSize_eq.
  destruct s as [w f b tw n c [sent|]], q as [x [|]]; reflexivity.
Qed.

(** ** The invariant of [haveBlankLine] *)

Lemma accurate_frame (s s' : smartStatusOutput) :
  writer s' = writer s -> haveBlankLine s' = haveBlankLine s ->
  accurate s -> accurate s'.
Proof. unfold accurate. intros -> ->. auto. Qed.

Lemma accurate_permanent (w : string) (s : smartStatusOutput) :
  ends_with_newline w -> accurate (with_output w true s).
Proof. unfold accurate, on_blank_line. cbn. intros H. split; auto. Qed.

Lemma accurate_status (w shown : string) (s : smartStatusOutput) :
  accurate (with_output (w ++ rendered shown) false s).
Proof.
  unfold accurate. cbn. split; [discriminate|].
  intros H. now apply rendered_not_blank in H.
Qed.

Lemma print_accurate (str : string) (s s' : smartStatusOutput) :
  print str s = Ok (tt, s') -> accurate s'.
Proof.
  rewrite print_eq. intros E. inversion E; subst. apply accurate_permanent.
  do 2 apply ends_with_newline_append. apply ends_with_newline_trailer.
Qed.

Lemma statusLine_accurate (str : string) (s s' : smartStatusOutput) :
  statusLine str s = Ok (tt, s') -> accurate s'.
Proof.
  rewrite statusLine_eq. intros E. inversion E; subst.
  apply accurate_status.
Qed.

Lemma requestLine_accurate (s s' : smartStatusOutput) :
  accurate s -> requestLine s = Ok (tt, s') -> accurate s'.
Proof.
  rewrite requestLine_eq. intros H E. inversion E; subst.
  destruct (haveBlankLine s); [exact H|].
  apply accurate_permanent. now exists (writer s).
Qed.

Lemma step_accurate (e : event) (s s' : smartStatusOutput) :
  accurate s -> step e s = Ok (tt, s') -> accurate s'.
Proof.
  intros H. destruct e as [level msg|a counts|r counts|p| |q]; cbn [step].
  - rewrite Message_eq. destruct (level <? StatusLvl).
    + intros E. inversion E; subst. exact H.
    + destruct (level >? StatusLvl);
        [apply print_accurate | apply statusLine_accurate].
  - rewrite StartAction_eq. apply statusLine_accurate.
  - rewrite FinishAction_eq.
    destruct (String.eqb (result (fmtr s) r) "");
      [apply statusLine_accurate|].
    unfold bind. rewrite statusLine_eq, requestLine_eq.
    match goal with
    | |- context [if ?b then ?x else ?y] => destruct (if b then x else y)
    end.
    apply print_accurate.
  - unfold bind. rewrite Write_eq. cbn [ret]. intros E.
    inversion E; subst. apply accurate_permanent.
    do 2 apply ends_with_newline_append. apply ends_with_newline_trailer.
  - rewrite Flush_eq. destruct (sigwinchClosed s); [discriminate|].
    apply requestLine_accurate. revert H. now apply accurate_frame.
  - unfold bind, gets. destruct (sigwinchNotify s).
    + rewrite sigwinchReceived_eq. intros E. inversion E; subst.
      revert H. apply accurate_frame;
        destruct s as [w f b tw n c [sent|]], q as [x [|]]; reflexivity.
    + intros E. inversion E; subst. exact H.
Qed.

Lemma run_accurate (es : list event) (s s' : smartStatusOutput) :
  accurate s -> run es s = Ok (tt, s') -> accurate s'.
Proof.
  revert s. induction es as [|e es IH]; intros s H; cbn [run].
  - intros E. inversion E; subst. exact H.
  - unfold bind. destruct (step e s) as [[[] s1]|p] eqn:E1; [|discriminate].
    apply IH. exact (step_accurate _ _ _ H E1).
Qed.

Lemma NewSmartStatusOutput_eq (w : string) (f : formatter) (q : Z * bool) :
  NewSmartStatusOutput w f q =
  Ok {| writer := w; fmtr := f; haveBlankLine := true;
        termWidth := if snd q then fst q else 0;
        sigwinchNotify := true; sigwinchClosed := false;
        sigwinchHandled := None |}.
Proof. destruct q as [x [|]]; reflexivity. Qed.

(** ** The bytes a permanent line and a status line put on the sink *)

Lemma print_bytes (str : string) (s : smartStatusOutput) :
  exists post,
    ((str = "" \/ ~ ends_with_newline str) /\ post = LF \/
     (str <> "" /\ ends_with_newline str) /\ post = "") /\
    print str s =
    Ok (tt, with_output
              (writer s ++
               (if haveBlankLine s then "" else CR ++ clearEOL) ++
               str ++ post)
              true s).
Proof.
  exists (trailer str). split; [|apply print_eq].
  destruct (ends_with_newline_dec str) as [H|H].
  - right. repeat split; [|exact H | now apply trailer_newline].
    intros ->. destruct H as [[|x p] E]; discriminate.
  - left. split; [now right | now apply trailer_other].
Qed.

Lemma statusLine_bytes (str : string) (s : smartStatusOutput) :
  exists line shown cut,
    (str = line \/ exists rest, str = line ++ LF ++ rest) /\
    ~ contains_newline line /\
    line = shown ++ cut /\
    len shown = (if 0 <? termWidth s
                 then Z.min (termWidth s) (len line) else len line) /\
    statusLine str s =
    Ok (tt, with_output
              (writer s ++ CR ++ boldOn ++ shown ++ boldOff ++ clearEOL)
              false s).
Proof.
  destruct (firstLine_spec str) as [Hline Hno].
  destruct (substring_is_prefix (Z.to_nat (termWidth s)) (firstLine str))
    as [rest Hrest].
  exists (firstLine str), (hardCut (termWidth s) (firstLine str)).
  exists (if 0 <? termWidth s then rest else "").
  split; [exact Hline|]. split; [exact Hno|].
  split; [|split; [|apply statusLine_eq]].
  - unfold hardCut. destruct (0 <? termWidth s); [exact Hrest|].
    now rewrite append_nil_r.
  - unfold hardCut. destruct (0 <? termWidth s) eqn:E; [|reflexivity].
    apply Z.ltb_lt in E. unfold len. rewrite length_substring. lia.
Qed.

(** ** The properties of the specification *)

(** C2: after every sequence of events from the initial state that runs to
    completion, [haveBlankLine] is true if and only if the bytes written to
    the sink so far are empty or end with a newline. *)
Theorem haveBlankLine_accurate (f : formatter) (q : Z * bool)
    (es : list event) (s : smartStatusOutput) :
  session f q es = Ok s ->
  (haveBlankLine s = true <->
   writer s = "" \/ exists p, writer s = p ++ LF).
Proof.
  unfold session. rewrite NewSmartStatusOutput_eq.
  match goal with
  | |- context [run es ?s0] =>
      destruct (run es s0) as [[[] s1]|p] eqn:E; [|discriminate];
      assert (H0 : accurate s0)
        by (unfold accurate, on_blank_line; cbn; split; auto)
  end.
  intros R. inversion R; subst. exact (run_accurate _ _ _ H0 E).
Qed.

(** C4: [print] writes carriage return and clear-to-end-of-line before the
    text exactly when [haveBlankLine] was false on entry, then the text as
    it is, then a newline exactly when the text is empty or does not end in
    one, and leaves [haveBlankLine] true. *)
Theorem print_spec (str : string) (s : smartStatusOutput) :
  exists pre post s',
    print str s = Ok (tt, s') /\
    s' = with_output (writer s ++ pre ++ str ++ post) true s /\
    haveBlankLine s' = true /\
    (haveBlankLine s = false /\ pre = CR ++ clearEOL \/
     haveBlankLine s = true /\ pre = "") /\
    ((str = "" \/ ~ ends_with_newline str) /\ post = LF \/
     (str <> "" /\ ends_with_newline str) /\ post = "").
Proof.
  exists (lead (haveBlankLine s)), (trailer str).
  eexists. split; [apply print_eq|]. split; [reflexivity|].
  split; [reflexivity|]. split.
  - destruct (haveBlankLine s); [right | left]; auto.
  - destruct (ends_with_newline_dec str) as [H|H].
    + right. repeat split; [|exact H | now apply trailer_newline].
      intros ->. destruct H as [[|x p] E]; discriminate.
    + left. split; [now right | now apply trailer_other].
Qed.

(** C3: [statusLine] cuts the text at its first newline, then, when
    [termWidth] is positive, to its first [termWidth] bytes; it writes
    carriage return, bold on, that text, bold off, clear to end of line, and
    leaves [haveBlankLine] false.  With [termWidth = 10] the text
    ["ABCDEFGHIJKLMNO"] is shown as ["ABCDEFGHIJ"]. *)
Theorem statusLine_spec (str : string) (s : smartStatusOutput) :
  (exists line shown cut s',
     (str = line \/ exists rest, str = line ++ LF ++ rest) /\
     ~ contains_newline line /\
     line = shown ++ cut /\
     len shown = (if 0 <? termWidth s
                  then Z.min (termWidth s) (len line) else len line) /\
     statusLine str s = Ok (tt, s') /\
     s' = with_output
            (writer s ++ CR ++ boldOn ++ shown ++ boldOff ++ clearEOL)
            false s /\
     haveBlankLine s' = false) /\
  statusLine "ABCDEFGHIJKLMNO" (set_termWidth 10 s) =
  Ok (tt, with_output
            (writer s ++ CR ++ boldOn ++ "ABCDEFGHIJ" ++ boldOff ++ clearEOL)
            false (set_termWidth 10 s)).
Proof.
  split.
  - destruct (firstLine_spec str) as [Hline Hno].
    destruct (substring_is_prefix (Z.to_nat (termWidth s)) (firstLine str))
      as [rest Hrest].
    exists (firstLine str), (hardCut (termWidth s) (firstLine str)).
    exists (if 0 <? termWidth s then rest else "").
    eexists. split; [exact Hline|]. split; [exact Hno|].
    split; [|split; [|split; [apply statusLine_eq|split; reflexivity]]].
    + unfold hardCut. destruct (0 <? termWidth s); [exact Hrest|].
      now rewrite append_nil_r.
    + unfold hardCut. destruct (0 <? termWidth s) eqn:E; [|reflexivity].
      apply Z.ltb_lt in E. unfold len. rewrite length_substring. lia.
  - rewrite statusLine_eq. reflexivity.
Qed.

(** C5: [Message] below [StatusLvl] writes nothing and changes nothing.
    Above [StatusLvl] it is [print] of the formatted text: the sink
    receives a carriage return and clear-to-end-of-line if a status line
    was showing, then the formatted text, then a newline if the text is
    empty or does not end in one, and [haveBlankLine] becomes true.  At
    [StatusLvl] it is [statusLine] of the formatted text: the sink receives
    carriage return, bold on, the text cut at its first newline and to the
    width, bold off, clear to end of line, and [haveBlankLine] becomes
    false. *)
Theorem Message_spec (level : MsgLevel) (msg : string)
    (s : smartStatusOutput) :
  let text := message (fmtr s) level msg in
  (level < StatusLvl -> Message level msg s = Ok (tt, s)) /\
  (level > StatusLvl ->
   Message level msg s = print text s /\
   exists post,
     ((text = "" \/ ~ ends_with_newline text) /\ post = LF \/
      (text <> "" /\ ends_with_newline text) /\ post = "") /\
     Message level msg s =
     Ok (tt, with_output
               (writer s ++
                (if haveBlankLine s then "" else CR ++ clearEOL) ++
                text ++ post)
               true s)) /\
  (level = StatusLvl ->
   Message level msg s = statusLine text s /\
   exists line shown cut,
     (text = line \/ exists rest, text = line ++ LF ++ rest) /\
     ~ contains_newline line /\
     line = shown ++ cut /\
     len shown = (if 0 <? termWidth s
                  then Z.min (termWidth s) (len line) else len line) /\
     Message level msg s =
     Ok (tt, with_output
               (writer s ++ CR ++ boldOn ++ shown ++ boldOff ++ clearEOL)
               false s)).
Proof.
  cbv zeta. rewrite Message_eq. split; [|split]; intros H.
  - now replace (level <? StatusLvl) with true
      by (symmetry; apply Z.ltb_lt; lia).
  - replace (level <? StatusLvl) with false
      by (symmetry; apply Z.ltb_ge; lia).
    replace (level >? StatusLvl) with true
      by (symmetry; apply Z.gtb_lt; lia).
    split; [reflexivity | apply print_bytes].
  - replace (level <? StatusLvl) with false
      by (symmetry; apply Z.ltb_ge; lia).
    replace (level >? StatusLvl) with false
      by (symmetry; rewrite Z.gtb_ltb; apply Z.ltb_ge; lia).
    split; [reflexivity | apply statusLine_bytes].
Qed.


(** C8: [Write] forwards its bytes through [print] as a permanent line:
    the sink receives a carriage return and clear-to-end-of-line if a
    status line was showing, then the bytes as they are, then a newline if
    they are empty or do not end in one, and [haveBlankLine] becomes true;
    [Write] returns the number of bytes it was given and no error. *)
Theorem Write_spec (p : string) (s : smartStatusOutput) :
  exists post s',
    ((p = "" \/ ~ ends_with_newline p) /\ post = LF \/
     (p <> "" /\ ends_with_newline p) /\ post = "") /\
    s' = with_output
           (writer s ++
            (if haveBlankLine s then "" else CR ++ clearEOL) ++ p ++ post)
           true s /\
    print p s = Ok (tt, s') /\
    Write p s = Ok ((len p, None), s').
Proof.
  destruct (print_bytes p s) as (post & Hpost & E).
  exists post. eexists. split; [exact Hpost|]. split; [reflexivity|].
  split; [exact E|]. unfold Write, bind. rewrite E. reflexivity.
Qed.

(** C9: when the width query fails, [updateTermSize] changes nothing:
    [termWidth] keeps its value, and a status line set afterwards is cut as
    it would have been before. *)
Theorem updateTermSize_unavailable (w : Z) (s : smartStatusOutput) :
  updateTermSize (w, false) s = Ok (tt, s) /\
  forall str : string,
    (updateTermSize (w, false) ;; statusLine str) s = statusLine str s.
Proof. split; reflexivity. Qed.

(** C10: with a width that is not negative, [elide] returns the first
    [termWidth] bytes of a string longer than [termWidth] bytes, wherever
    that falls in a character, and a string of at most [termWidth] bytes as
    it is. *)
Theorem elide_spec (str : string) (s : smartStatusOutput) :
  0 <= termWidth s ->
  (termWidth s < len str ->
   exists head rest,
     str = head ++ rest /\ len head = termWidth s /\
     elide str s = Ok (head, s)) /\
  (len str <= termWidth s -> elide str s = Ok (str, s)).
Proof.
  intros Hw. rewrite (elide_eq _ _ Hw). split; intros H.
  - destruct (substring_is_prefix (Z.to_nat (termWidth s)) str)
      as [rest E].
    exists (substring 0 (Z.to_nat (termWidth s)) str), rest.
    split; [exact E|]. split; [|reflexivity].
    unfold len in *. rewrite length_substring. lia.
  - rewrite substring_short; [reflexivity|]. unfold len in H. lia.
Qed.

(** C1, as the code has it: [Flush] on a renderer whose subscription is
    open returns normally, stops the subscription, closes the channel and
    leaves the cursor on a blank line; a [Flush] after that closes the
    closed channel and panics. *)
Theorem Flush_once (s : smartStatusOutput) :
  sigwinchClosed s = false ->
  exists s1,
    Flush s = Ok (tt, s1) /\
    sigwinchNotify s1 = false /\ sigwinchClosed s1 = true /\
    haveBlankLine s1 = true /\
    Flush s1 = Panic CloseOfClosedChannel.
Proof.
  intros H. rewrite Flush_eq, H, requestLine_eq.
  eexists. split; [reflexivity|].
  destruct s as [w f [|] tw n c h]; cbn in *; repeat split.
Qed.

(** C7, as the code has it: a stored width of zero or less disables
    truncation; the stored width is zero as long as every width query, at
    construction and at each resize, has failed; and after a failed query
    the status line is cut by the width stored before it. *)
Theorem unknown_width_no_truncation :
  (forall (str : string) (s : smartStatusOutput),
     termWidth s <= 0 ->
     statusLine str s =
     Ok (tt, with_output (writer s ++ rendered (firstLine str)) false s)) /\
  (forall (f : formatter) (q : Z * bool) (es : list event)
          (s : smartStatusOutput),
     snd q = false -> Forall query_failed es ->
     session f q es = Ok s -> termWidth s = 0) /\
  (forall (w : Z) (str : string) (s : smartStatusOutput),
     (updateTermSize (w, false) ;; statusLine str) s =
     Ok (tt, with_output
               (writer s ++
                rendered (hardCut (termWidth s) (firstLine str)))
               false s)).
Proof.
  split; [|split; [|intros w str s; apply statusLine_eq]].
  - intros str s H. rewrite statusLine_eq. unfold hardCut.
    now replace (0 <? termWidth s) with false
      by (symmetry; apply Z.ltb_ge; lia).
  - intros f q es s Hq Hes. unfold session.
    rewrite NewSmartStatusOutput_eq, Hq.
    match goal with
    | |- context [run es ?s0] =>
        assert (H0 : termWidth s0 = 0) by reflexivity; revert H0;
        generalize s0
    end.
    induction Hes as [|e es He Hes IH]; intros s0 H0; cbn [run].
    + intros E. inversion E; subst. exact H0.
    + unfold bind at 1.
      destruct (step e s0) as [[[] s1]|p] eqn:E1; [|discriminate].
      apply IH. revert E1. clear IH Hes.
      destruct e as [level msg|a counts|r counts|p| |q']; cbn [step].
      * rewrite Message_eq. destruct (level <? StatusLvl).
        -- intros E. inversion E; subst. exact H0.
        -- destruct (level >? StatusLvl);
             rewrite ?print_eq, ?statusLine_eq; intros E; inversion E;
             subst; exact H0.
      * rewrite StartAction_eq, statusLine_eq. intros E. inversion E.
        subst. exact H0.
      * rewrite FinishAction_eq.
        destruct (String.eqb (result (fmtr s0) r) ""); unfold bind;
          rewrite statusLine_eq, ?requestLine_eq; cbn [with_output
            set_haveBlankLine set_writer haveBlankLine writer];
          rewrite ?print_eq; intros E; inversion E; subst; exact H0.
      * unfold bind. rewrite Write_eq. cbn [ret]. intros E. inversion E.
        subst. exact H0.
      * rewrite Flush_eq. destruct (sigwinchClosed s0); [discriminate|].
        rewrite requestLine_eq. intros E. inversion E; subst.
        destruct s0 as [w f0 [|] tw n c h]; exact H0.
      * unfold bind, gets. destruct (sigwinchNotify s0).
        -- rewrite sigwinchReceived_eq. cbn in He. rewrite He.
           intros E. inversion E; subst.
           destruct (sigwinchHandled s0); exact H0.
        -- intros E. inversion E; subst. exact H0.
Qed.

(** ** Further properties of the methods *)

Lemma run_app (es1 es2 : list event) (s : smartStatusOutput) :
  run (es1 ++ es2) s = (run es1 ;; run es2) s.
Proof.
  revert s. induction es1 as [|e es1 IH]; intros s; cbn [run app].
  - reflexivity.
  - unfold bind. destruct (step e s) as [[[] s1]|p]; [|reflexivity].
    rewrite IH. reflexivity.
Qed.

Ltac extends_sink :=
  first [ exists ""; symmetry; apply append_nil_r
        | rewrite ?append_assoc; eexists; reflexivity ].

Ltac frame_done :=
  let E := fresh "E" in
  intros E; inversion E; subst; cbn;
  rewrite ?orb_false_r, ?andb_true_r, ?andb_false_r;
  repeat split; extends_sink.

(** What a completed event leaves of the receiver. *)
Lemma step_frame (e : event) (s s' : smartStatusOutput) :
  step e s = Ok (tt, s') ->
  fmtr s' = fmtr s /\
  (exists d, writer s' = writer s ++ d) /\
  sigwinchClosed s' = sigwinchClosed s || is_flush e /\
  sigwinchNotify s' = sigwinchNotify s && negb (is_flush e) /\
  termWidth s' = width_after (sigwinchNotify s) (termWidth s) [e].
Proof.
  destruct s as [w0 f b tw n c h].
  destruct e as [level msg|a counts|r counts|p| |[w ok]]; cbn [step].
  - rewrite Message_eq. destruct (level <? StatusLvl);
      [|destruct (level >? StatusLvl); rewrite ?print_eq, ?statusLine_eq];
      frame_done.
  - rewrite StartAction_eq, statusLine_eq. frame_done.
  - rewrite FinishAction_eq.
    match goal with
    | |- context [String.eqb ?x ""] => destruct (String.eqb x "")
    end; unfold bind;
      rewrite statusLine_eq, ?requestLine_eq;
      cbn [with_output set_haveBlankLine set_writer haveBlankLine writer];
      rewrite ?print_eq; frame_done.
  - unfold bind. rewrite Write_eq. cbn [ret]. frame_done.
  - rewrite Flush_eq. destruct c; [discriminate|].
    rewrite requestLine_eq. destruct b; frame_done.
  - unfold bind, gets. cbn [sigwinchNotify]. destruct n.
    + rewrite sigwinchReceived_eq. destruct h, ok; frame_done.
    + frame_done.
Qed.

(** Every event but [Flush] completes. *)
Lemma step_completes (e : event) (s : smartStatusOutput) :
  is_flush e = false -> exists s', step e s = Ok (tt, s').
Proof.
  destruct e as [level msg|a counts|r counts|p| |q]; cbn [step is_flush];
    intros H; try discriminate.
  - rewrite Message_eq. destruct (level <? StatusLvl);
      [|destruct (level >? StatusLvl); rewrite ?print_eq, ?statusLine_eq];
      eexists; reflexivity.
  - rewrite StartAction_eq, statusLine_eq. eexists; reflexivity.
  - rewrite FinishAction_eq.
    destruct (String.eqb (result (fmtr s) r) ""); unfold bind;
      rewrite statusLine_eq, ?requestLine_eq;
      cbn [with_output set_haveBlankLine set_writer haveBlankLine writer];
      rewrite ?print_eq; eexists; reflexivity.
  - unfold bind. rewrite Write_eq. eexists; reflexivity.
  - unfold bind, gets. destruct (sigwinchNotify s);
      rewrite ?sigwinchReceived_eq; eexists; reflexivity.
Qed.

Lemma run_frame (es : list event) (s s' : smartStatusOutput) :
  run es s = Ok (tt, s') ->
  fmtr s' = fmtr s /\
  (exists d, writer s' = writer s ++ d) /\
  termWidth s' = width_after (sigwinchNotify s) (termWidth s) es.
Proof.
  revert s. induction es as [|e es IH]; intros s; cbn [run].
  - intros E. inversion E; subst. repeat split. extends_sink.
  - unfold bind. destruct (step e s) as [[[] s1]|p] eqn:E1; [|discriminate].
    intros E. destruct (IH _ E) as (Hf & [d2 Hw] & Ht).
    destruct (step_frame _ _ _ E1) as (Hf1 & [d1 Hw1] & _ & Hn1 & Ht1).
    split; [congruence|]. split.
    + exists (d1 ++ d2). now rewrite Hw, Hw1, append_assoc.
    + rewrite Ht, Hn1, Ht1. clear.
      destruct e as [level msg|a counts|r counts|p| |[w ok]];
        cbn [width_after is_flush negb];
        rewrite ?andb_true_r, ?andb_false_r; reflexivity.
Qed.

Lemma session_app (f : formatter) (q : Z * bool) (es1 es2 : list event)
    (s2 : smartStatusOutput) :
  session f q (es1 ++ es2) = Ok s2 ->
  exists s1, session f q es1 = Ok s1 /\ run es2 s1 = Ok (tt, s2).
Proof.
  unfold session. rewrite NewSmartStatusOutput_eq, run_app. unfold bind.
  match goal with
  | |- context [run es1 ?s0] => destruct (run es1 s0) as [[[] s1]|p]
  end; [|discriminate].
  intros E. exists s1. split; [reflexivity|].
  destruct (run es2 s1) as [[[] s]|p]; [|discriminate].
  now inversion E.
Qed.

Lemma session_accurate (f : formatter) (q : Z * bool) (es : list event)
    (s : smartStatusOutput) :
  session f q es = Ok s -> accurate s.
Proof.
  unfold session. rewrite NewSmartStatusOutput_eq.
  match goal with
  | |- context [run es ?s0] =>
      destruct (run es s0) as [[[] s1]|p] eqn:E; [|discriminate];
      assert (H0 : accurate s0)
        by (unfold accurate, on_blank_line; cbn; split; auto)
  end.
  intros R. inversion R; subst. exact (run_accurate _ _ _ H0 E).
Qed.

Lemma IndexRune_append (a b : string) (r : ascii) :
  IndexRune a r = -1 -> IndexRune b r = -1 -> IndexRune (a ++ b) r = -1.
Proof.
  intros Ha Hb. induction a as [|x a IH]; cbn [append IndexRune] in *;
    [exact Hb|]. cbv zeta in *.
  destruct (Ascii.eqb x r); [discriminate|].
  destruct (IndexRune a r =? -1) eqn:E.
  - apply Z.eqb_eq in E. now rewrite (IH E).
  - pose proof (IndexRune_lower a r). lia.
Qed.

Lemma IndexRune_substring (n : nat) (s : string) (r : ascii) :
  IndexRune s r = -1 -> IndexRune (substring 0 n s) r = -1.
Proof.
  revert n. induction s as [|x s IH]; intros [|n];
    cbn [substring IndexRune]; cbv zeta; try reflexivity.
  destruct (Ascii.eqb x r); [discriminate|].
  destruct (IndexRune s r =? -1) eqn:E.
  - apply Z.eqb_eq in E. intros _. now rewrite (IH n E).
  - pose proof (IndexRune_lower s r). lia.
Qed.

Lemma shown_single_line (w : Z) (str : string) :
  IndexRune (hardCut w (firstLine str)) newline = -1.
Proof.
  unfold hardCut. destruct (0 <? w).
  - apply IndexRune_substring, IndexRune_firstLine.
  - apply IndexRune_firstLine.
Qed.

Lemma rendered_single_line (shown : string) :
  IndexRune shown newline = -1 -> ~ contains_newline (rendered shown).
Proof.
  intros H (p & q & E). revert E.
  apply IndexRune_none. unfold rendered.
  repeat (apply IndexRune_append; try reflexivity). exact H.
Qed.

Lemma concat_cons (x : string) (xs : list string) :
  String.concat "" (x :: xs) = x ++ String.concat "" xs.
Proof.
  destruct xs as [|y ys]; cbn [String.concat].
  - now rewrite append_nil_r.
  - reflexivity.
Qed.

Lemma status_last_blank (w : string) (s : smartStatusOutput) :
  status_last (with_output w true s).
Proof. unfold status_last. cbn. discriminate. Qed.

Lemma status_last_status (str : string) (s s' : smartStatusOutput) :
  statusLine str s = Ok (tt, s') -> status_last s'.
Proof.
  rewrite statusLine_eq. intros E. inversion E; subst. intros _. cbn.
  do 2 eexists. split; [reflexivity|].
  intros (p & q & C). revert C. apply IndexRune_none, shown_single_line.
Qed.

Lemma status_last_print (str : string) (s s' : smartStatusOutput) :
  print str s = Ok (tt, s') -> status_last s'.
Proof.
  rewrite print_eq. intros E. inversion E; subst. apply status_last_blank.
Qed.

Lemma status_last_frame (s s' : smartStatusOutput) :
  writer s' = writer s -> haveBlankLine s' = haveBlankLine s ->
  status_last s -> status_last s'.
Proof. unfold status_last. intros -> ->. auto. Qed.

Lemma step_status_last (e : event) (s s' : smartStatusOutput) :
  status_last s -> step e s = Ok (tt, s') -> status_last s'.
Proof.
  intros H. destruct e as [level msg|a counts|r counts|p| |q]; cbn [step].
  - rewrite Message_eq. destruct (level <? StatusLvl).
    + intros E. inversion E; subst. exact H.
    + destruct (level >? StatusLvl);
        [apply status_last_print | apply status_last_status].
  - rewrite StartAction_eq. apply status_last_status.
  - rewrite FinishAction_eq.
    destruct (String.eqb (result (fmtr s) r) "");
      [apply status_last_status|].
    unfold bind. rewrite statusLine_eq, requestLine_eq.
    match goal with
    | |- context [if ?b then ?x else ?y] => destruct (if b then x else y)
    end.
    apply status_last_print.
  - unfold bind. rewrite Write_eq. cbn [ret]. intros E.
    inversion E; subst. apply status_last_blank.
  - rewrite Flush_eq. destruct (sigwinchClosed s); [discriminate|].
    rewrite requestLine_eq. intros E. inversion E; subst.
    destruct (haveBlankLine s) eqn:Eb.
    + destruct s as [w f b tw n c h]; cbn in *; subst. intros C.
      discriminate C.
    + destruct s as [w f b tw n c h]; cbn in *; subst. intros C.
      discriminate C.
  - unfold bind, gets. destruct (sigwinchNotify s).
    + rewrite sigwinchReceived_eq. intros E. inversion E; subst.
      revert H. apply status_last_frame;
        destruct s as [w f b tw n c [sent|]], q as [x [|]]; reflexivity.
    + intros E. inversion E; subst. exact H.
Qed.

Lemma enter_nil (c : call) :
  nil_action c = true -> enter c = Panic NilPointerDereference.
Proof.
  destruct c as [level msg|[a|] counts|[[a|] o e] counts|p| |q];
    cbn; intros H; try discriminate; reflexivity.
Qed.

Lemma enter_ok (c : call) :
  nil_action c = false ->
  exists e, enter c = Ok e /\ is_flush e = is_Flush_call c.
Proof.
  destruct c as [level msg|[a|] counts|[[a|] o e] counts|p| |q];
    cbn; intros H; try discriminate; eexists; split; reflexivity.
Qed.

(** An event panics only as a [Flush] on a closed channel. *)
Lemma step_panics (e : event) (s : smartStatusOutput) (p : panic) :
  step e s = Panic p ->
  p = CloseOfClosedChannel /\ is_flush e = true /\ sigwinchClosed s = true.
Proof.
  destruct (is_flush e) eqn:Ef.
  - destruct e; try discriminate. cbn [step]. rewrite Flush_eq.
    destruct (sigwinchClosed s).
    + intros E. inversion E. auto.
    + rewrite requestLine_eq. discriminate.
  - destruct (step_completes e s Ef) as [s' E]. rewrite E. discriminate.
Qed.

Lemma step_Flush_open (s s' : smartStatusOutput) :
  step EvFlush s = Ok (tt, s') -> sigwinchClosed s = false.
Proof.
  cbn [step]. rewrite Flush_eq. destruct (sigwinchClosed s);
    [discriminate | reflexivity].
Qed.

Lemma run_calls_outcome (cs : list call) (s : smartStatusOutput) :
  let n := (call_flushes cs + if sigwinchClosed s then 1 else 0)%nat in
  (existsb nil_action cs = false -> (n <= 1)%nat ->
   exists s', run_calls cs s = Ok (tt, s')) /\
  (existsb nil_action cs = false -> (2 <= n)%nat ->
   run_calls cs s = Panic CloseOfClosedChannel) /\
  (forall p : panic,
     run_calls cs s = Panic p ->
     p = CloseOfClosedChannel /\ (2 <= n)%nat \/
     p = NilPointerDereference /\ existsb nil_action cs = true).
Proof.
  cbv zeta. revert s. induction cs as [|c cs IH]; intros s.
  - cbn. split; [intros; eexists; reflexivity|]. split; [|discriminate].
    destruct (sigwinchClosed s); lia.
  - cbn [run_calls existsb]. unfold bind, invoke, call_flushes.
    cbn [filter]. destruct (nil_action c) eqn:En.
    + rewrite (enter_nil _ En). cbn [lift orb].
      split; [discriminate|]. split; [discriminate|].
      intros p E. inversion E. right. auto.
    + destruct (enter_ok _ En) as (e & Ee & Ef). rewrite Ee. cbn [orb].
      rewrite <- Ef. destruct (step e s) as [[[] s1]|p0] eqn:E1.
      * assert (Hn : (call_flushes cs +
                      (if sigwinchClosed s1 then 1 else 0) =
                      List.length
                        (if is_flush e then c :: filter is_Flush_call cs
                         else filter is_Flush_call cs) +
                      (if sigwinchClosed s then 1 else 0))%nat).
        { destruct (step_frame _ _ _ E1) as (_ & _ & Hc & _).
          rewrite Hc. unfold call_flushes. destruct (is_flush e) eqn:Efl.
          - destruct e; try discriminate.
            rewrite (step_Flush_open _ _ E1). cbn. lia.
          - rewrite orb_false_r. reflexivity. }
        rewrite <- Hn. apply IH.
      * destruct (step_panics _ _ _ E1) as (-> & Efl & Ec).
        rewrite Efl, Ec. cbn [List.length].
        split; [intros; lia|]. split; [reflexivity|].
        intros p E. inversion E. left. split; [reflexivity | lia].
Qed.

(** ** Properties beyond the specification's list *)


(** X2: [requestLine] never panics, writes one newline when a status line
    is showing and nothing otherwise, leaves [haveBlankLine] true, and a
    second [requestLine] right after it changes nothing. *)
Theorem requestLine_idempotent (s : smartStatusOutput) :
  exists s',
    requestLine s = Ok (tt, s') /\
    writer s' = writer s ++ (if haveBlankLine s then "" else LF) /\
    haveBlankLine s' = true /\
    requestLine s' = Ok (tt, s') /\
    (requestLine ;; requestLine) s = Ok (tt, s').
Proof.
  unfold bind. rewrite requestLine_eq.
  destruct s as [w f [|] tw n c h]; eexists; cbn;
    rewrite ?append_nil_r; repeat split.
Qed.

(** X3: the bytes [statusLine] writes never hold a newline, whatever the
    text and the width: a status line stays on the line it was started
    on. *)
Theorem statusLine_single_line (str : string) (s : smartStatusOutput) :
  exists d s',
    statusLine str s = Ok (tt, s') /\
    writer s' = writer s ++ d /\
    ~ contains_newline d.
Proof.
  exists (rendered (hardCut (termWidth s) (firstLine str))). eexists.
  split; [apply statusLine_eq|]. split; [reflexivity|].
  apply rendered_single_line, shown_single_line.
Qed.

(** X4: a renderer built on a fresh sink, with a formatter that returns,
    runs every sequence of calls with no nil action and at most one [Flush]
    to completion.  When a sequence panics, it is with a close of a closed
    channel, and the sequence holds two or more [Flush] calls, or with a
    read through a nil pointer, and the sequence holds a call with a nil
    action: no method ever slices or indexes out of range. *)
Theorem panics_are_nil_action_or_repeated_Flush (f : formatter)
    (q : Z * bool) (cs : list call) :
  (existsb nil_action cs = false -> (call_flushes cs <= 1)%nat ->
   exists s, call_session f q cs = Ok s) /\
  (existsb nil_action cs = false -> (2 <= call_flushes cs)%nat ->
   call_session f q cs = Panic CloseOfClosedChannel) /\
  (forall p : panic,
     call_session f q cs = Panic p ->
     p = CloseOfClosedChannel /\ (2 <= call_flushes cs)%nat \/
     p = NilPointerDereference /\ existsb nil_action cs = true).
Proof.
  unfold call_session. rewrite NewSmartStatusOutput_eq.
  match goal with
  | |- context [run_calls cs ?s0] =>
      destruct (run_calls_outcome cs s0) as (H1 & H2 & H3);
      cbn [sigwinchClosed] in H1, H2, H3
  end.
  split; [|split].
  - intros Hn Hf. destruct (H1 Hn) as [s1 E1]; [lia|].
    rewrite E1. now exists s1.
  - intros Hn Hf. rewrite H2; [reflexivity | exact Hn | lia].
  - intros p Ep. specialize (H3 p).
    match goal with
    | _ : context [run_calls cs ?s0] |- _ =>
        destruct (run_calls cs s0) as [[[] s1]|p0]; [discriminate|]
    end.
    inversion Ep; subst.
    destruct (H3 eq_refl) as [[-> Hf]|[-> Hn]]; [left | right]; split;
      try reflexivity; try assumption; lia.
Qed.

(** X5: the sink is append-only: what a renderer has written after some
    events is a prefix of what it has written after any further events. *)
Theorem sink_append_only (f : formatter) (q : Z * bool)
    (es1 es2 : list event) (s2 : smartStatusOutput) :
  session f q (es1 ++ es2) = Ok s2 ->
  exists s1 d,
    session f q es1 = Ok s1 /\ writer s2 = writer s1 ++ d.
Proof.
  intros E. destruct (session_app _ _ _ _ _ E) as (s1 & E1 & E2).
  destruct (run_frame _ _ _ E2) as (_ & [d Hd] & _).
  now exists s1, d.
Qed.

(** X6: after any completed sequence of events the stored width is the
    answer of the last width query that succeeded, at construction or at a
    resize delivered before [Flush], and zero if none did; no event changes
    the formatter. *)
Theorem termWidth_after_session (f : formatter) (q : Z * bool)
    (es : list event) (s : smartStatusOutput) :
  session f q es = Ok s ->
  termWidth s = width_after true (if snd q then fst q else 0) es /\
  fmtr s = f.
Proof.
  unfold session. rewrite NewSmartStatusOutput_eq.
  match goal with
  | |- context [run es ?s0] =>
      destruct (run es s0) as [[[] s1]|p] eqn:E; [|discriminate]
  end.
  intros R. inversion R; subst.
  destruct (run_frame _ _ _ E) as (Hf & _ & Ht). split; assumption.
Qed.

(** X7: a [Flush] that completes after the events [es] has written one
    newline if a status line was showing and nothing otherwise; it leaves
    the cursor on a blank line, the subscription stopped and the channel
    closed, and the width as it was. *)
Theorem Flush_commits (f : formatter) (q : Z * bool) (es : list event)
    (s : smartStatusOutput) :
  session f q (es ++ [EvFlush]) = Ok s ->
  exists s0,
    session f q es = Ok s0 /\
    writer s = writer s0 ++ (if haveBlankLine s0 then "" else LF) /\
    haveBlankLine s = true /\
    on_blank_line (writer s) /\
    sigwinchNotify s = false /\ sigwinchClosed s = true /\
    termWidth s = termWidth s0.
Proof.
  intros E. pose proof (session_accurate _ _ _ _ E) as Hacc.
  destruct (session_app _ _ _ _ _ E) as (s0 & E0 & E1).
  exists s0. split; [exact E0|].
  cbn [run step] in E1. unfold bind in E1. rewrite Flush_eq in E1.
  destruct (sigwinchClosed s0); [discriminate|].
  rewrite requestLine_eq in E1. cbn [ret] in E1.
  assert (Hs : writer s = writer s0 ++ (if haveBlankLine s0 then "" else LF)
               /\ haveBlankLine s = true /\ sigwinchNotify s = false /\
               sigwinchClosed s = true /\ termWidth s = termWidth s0).
  { inversion E1; subst.
    destruct s0 as [w f0 [|] tw n c h]; cbn; rewrite ?append_nil_r;
      repeat split. }
  destruct Hs as (Hw & Hb & Hn & Hc & Ht). repeat split; try assumption.
  apply Hacc. exact Hb.
Qed.

(** X8: on a blank line, a sequence of [Write] calls puts exactly the given
    texts on the sink, each closed by a newline if it did not end in one,
    with no escape sequence between them, and changes nothing else. *)
Theorem Write_lines_verbatim :
  (forall text : string,
     (ends_with_newline text -> permanent text = text) /\
     (~ ends_with_newline text -> permanent text = text ++ LF)) /\
  (forall (ps : list string) (s : smartStatusOutput),
     haveBlankLine s = true ->
     run (map EvWrite ps) s =
     Ok (tt, set_writer
               (writer s ++ String.concat "" (map permanent ps)) s)).
Proof.
  split.
  - intros text. unfold permanent. split; intros H.
    + now rewrite (trailer_newline _ H), append_nil_r.
    + now rewrite (trailer_other _ H).
  - induction ps as [|p ps IH]; intros s Hb; cbn [map run].
    + destruct s. cbn. now rewrite append_nil_r.
    + unfold bind at 1. cbn [step]. unfold bind at 1. rewrite Write_eq.
      cbn [ret]. rewrite IH by reflexivity.
      rewrite concat_cons. destruct s as [w f b tw n c h].
      cbn in Hb. subst b. cbn. unfold permanent at 2.
      now rewrite !append_assoc.
Qed.

(** X9: a permanent line printed while a status line is showing comes
    after a carriage return and a clear-to-end-of-line, so that it takes the
    status line's place, and the cursor ends on a blank line. *)
Theorem print_replaces_status (x y : string) (s : smartStatusOutput) :
  exists s1,
    statusLine x s = Ok (tt, s1) /\
    (statusLine x ;; print y) s =
    Ok (tt, with_output (writer s1 ++ CR ++ clearEOL ++ permanent y)
              true s1).
Proof.
  unfold bind. rewrite statusLine_eq. eexists. split; [reflexivity|].
  rewrite print_eq. cbn. unfold permanent. now rewrite !append_assoc.
Qed.

(** X10: a resize signal never panics and writes nothing: it leaves the
    sink, [haveBlankLine], the formatter and the channel as they are, and
    stores the answered width only when the subscription is on and the
    query succeeded. *)
Theorem resize_writes_nothing (q : Z * bool) (s : smartStatusOutput) :
  exists s',
    step (EvSigwinch q) s = Ok (tt, s') /\
    writer s' = writer s /\ haveBlankLine s' = haveBlankLine s /\
    fmtr s' = fmtr s /\ sigwinchClosed s' = sigwinchClosed s /\
    termWidth s' =
      (if sigwinchNotify s && snd q then fst q else termWidth s).
Proof.
  cbn [step]. unfold bind, gets.
  destruct s as [w f b tw [|] c [sent|]], q as [x [|]];
    rewrite ?sigwinchReceived_eq; eexists; cbn; repeat split.
Qed.

(** X11: whenever [haveBlankLine] is false after a completed sequence of
    events, the last bytes on the sink are a whole status line: carriage
    return, bold on, a text without newline, bold off, clear to end of
    line. *)
Theorem status_line_is_last (f : formatter) (q : Z * bool)
    (es : list event) (s : smartStatusOutput) :
  session f q es = Ok s ->
  haveBlankLine s = false ->
  exists out shown,
    writer s = out ++ CR ++ boldOn ++ shown ++ boldOff ++ clearEOL /\
    ~ contains_newline shown.
Proof.
  unfold session. rewrite NewSmartStatusOutput_eq.
  match goal with
  | |- context [run es ?s0] =>
      assert (H0 : status_last s0) by (intros C; discriminate C);
      revert H0; generalize s0
  end.
  induction es as [|e es IH]; intros s0 H0; cbn [run].
  - intros E. inversion E; subst. exact H0.
  - unfold bind.
    destruct (step e s0) as [[[] s1]|p] eqn:E1; [|discriminate].
    apply IH. exact (step_status_last _ _ _ H0 E1).
Qed.

(** X12: on its own [elide] panics with a slice out of range when the
    stored width is negative and returns the empty string when it is zero;
    [statusLine] calls it only for a positive width and so completes for
    every text and every width. *)
Theorem elide_needs_positive_width (str : string)
    (s : smartStatusOutput) :
  (termWidth s < 0 -> elide str s = Panic SliceBoundsOutOfRange) /\
  (termWidth s = 0 -> elide str s = Ok ("", s)) /\
  (exists s', statusLine str s = Ok (tt, s')).
Proof.
  split; [apply elide_negative|]. split.
  - intros H. rewrite elide_eq by lia. rewrite H. cbn [Z.to_nat].
    destruct str; reflexivity.
  - rewrite statusLine_eq. eexists. reflexivity.
Qed.

End Renderer.

Arguments message {Counts} f level msg.
Arguments progress {Counts} f counts.
Arguments result {Counts} f r.
Arguments EvMessage {Counts} level msg.
Arguments EvStartAction {Counts} a counts.
Arguments EvFinishAction {Counts} r counts.
Arguments EvWrite {Counts} p.
Arguments EvFlush {Counts}.
Arguments EvSigwinch {Counts} q.
Arguments CallMessage {Counts} level msg.
Arguments CallStartAction {Counts} a counts.
Arguments CallFinishAction {Counts} r counts.
Arguments CallWrite {Counts} p.
Arguments CallFlush {Counts}.
Arguments Resize {Counts} q.
Arguments nil_action {Counts} c.
Arguments call_flushes {Counts} cs.

(** ** Concrete runs

    A renderer with the threshold at level 1, a formatter that shows
    messages as they are, a fixed progress prefix and an action's output as
    its result. *)

Definition plain : formatter unit :=
  {| message := fun _ m => m;
     progress := fun _ => "[1/2] ";
     result := Output |}.

Definition compile_foo : Action :=
  {| Description := "compiling foo.c"; Command := "cc -c foo.c" |}.

Definition warned : ActionResult :=
  {| action := compile_foo; Output := "foo.c:1: warning"; Error := None |}.

(** The renderer as [NewSmartStatusOutput] leaves it on a terminal [w]
    columns wide. *)
Definition fresh (w : Z) : smartStatusOutput unit :=
  {| writer := ""; fmtr := plain; haveBlankLine := true; termWidth := w;
     sigwinchNotify := true; sigwinchClosed := false;
     sigwinchHandled := None |}.

(** The two bytes of U+00E9 in UTF-8, followed by ["t"]. *)
Definition e_acute_t : string :=
  String "195"%char (String "169"%char "t").

Definition busy_build : list (event unit) :=
  [EvStartAction compile_foo tt; EvWrite "ninja: note";
   EvSigwinch (0, false); EvFinishAction warned tt;
   EvMessage 1 "Running"; EvMessage 2 "done"; EvMessage 0 "dropped";
   EvStartAction compile_foo tt; EvFlush].

Example fresh_is_new :
  NewSmartStatusOutput unit "" plain (80, true) = Ok (fresh 80).
Proof. reflexivity. Qed.

Example status_line_bytes :
  statusLine unit "ABCDEFGHIJKLMNO" (fresh 10) =
  Ok (tt, with_output unit (rendered "ABCDEFGHIJ") false (fresh 10)).
Proof. reflexivity. Qed.

Example flush_twice :
  session 1 unit plain (80, true) [EvFlush; EvFlush] =
  Panic CloseOfClosedChannel.
Proof. reflexivity. Qed.

Example negative_width_panics :
  elide unit "abc" (fresh (-1)) = Panic SliceBoundsOutOfRange.
Proof. reflexivity. Qed.

(** C1 fails on the code: the second of two [Flush] calls in sequence
    panics. *)
Lemma second_Flush_panics :
  exists s0,
    NewSmartStatusOutput unit "" plain (80, true) = Ok s0 /\
    ~ second_Flush_harmless unit s0.
Proof.
  exists (fresh 80). split; [reflexivity|].
  intros (s1 & s2 & E1 & E2).
  vm_compute in E1. inversion E1; subst. vm_compute in E2. discriminate E2.
Qed.

Lemma Flush_once_witness :
  sigwinchClosed unit (fresh 80) = false /\
  exists s1,
    Flush unit (fresh 80) = Ok (tt, s1) /\
    sigwinchNotify unit s1 = false /\ sigwinchClosed unit s1 = true /\
    haveBlankLine unit s1 = true /\
    Flush unit s1 = Panic CloseOfClosedChannel.
Proof.
  split; [reflexivity|]. apply (Flush_once unit (fresh 80)). reflexivity.
Defined.

Lemma haveBlankLine_accurate_witness :
  exists s,
    session 1 unit plain (80, true) busy_build = Ok s /\
    (haveBlankLine unit s = true <->
     writer unit s = "" \/ exists p, writer unit s = p ++ LF).
Proof.
  eexists. split; [vm_compute; reflexivity|].
  apply (haveBlankLine_accurate 1 unit plain (80, true) busy_build).
  vm_compute. reflexivity.
Defined.

Lemma Message_spec_witness :
  Message 1 unit 0 "verbose" (fresh 80) = Ok (tt, fresh 80) /\
  (Message 1 unit 2 "note" (fresh 80) = print unit "note" (fresh 80) /\
   exists post,
     (("note" = "" \/ ~ ends_with_newline "note") /\ post = LF \/
      ("note" <> "" /\ ends_with_newline "note") /\ post = "") /\
     Message 1 unit 2 "note" (fresh 80) =
     Ok (tt, with_output unit ("" ++ "" ++ "note" ++ post) true (fresh 80)))
  /\
  (Message 1 unit 1 "Running" (fresh 80) =
   statusLine unit "Running" (fresh 80) /\
   exists line shown cut,
     ("Running" = line \/ exists rest, "Running" = line ++ LF ++ rest) /\
     ~ contains_newline line /\
     line = shown ++ cut /\
     len shown = Z.min 80 (len line) /\
     Message 1 unit 1 "Running" (fresh 80) =
     Ok (tt, with_output unit
               ("" ++ CR ++ boldOn ++ shown ++ boldOff ++ clearEOL)
               false (fresh 80))).
Proof.
  split; [|split].
  - apply (proj1 (Message_spec 1 unit 0 "verbose" (fresh 80))). lia.
  - apply (proj1 (proj2 (Message_spec 1 unit 2 "note" (fresh 80)))). lia.
  - apply (proj2 (proj2 (Message_spec 1 unit 1 "Running" (fresh 80)))).
    reflexivity.
Defined.


Lemma elide_spec_witness :
  0 <= termWidth unit (fresh 1) /\
  termWidth unit (fresh 1) < len e_acute_t /\
  exists head rest,
    e_acute_t = head ++ rest /\ len head = termWidth unit (fresh 1) /\
    elide unit e_acute_t (fresh 1) = Ok (head, fresh 1).
Proof.
  assert (H0 : 0 <= termWidth unit (fresh 1)) by (cbn; lia).
  assert (H1 : termWidth unit (fresh 1) < len e_acute_t) by (cbn; lia).
  split; [exact H0|]. split; [exact H1|].
  exact (proj1 (elide_spec unit e_acute_t (fresh 1) H0) H1).
Defined.

(** C7 fails on the code: on a terminal 10 columns wide, a status line set
    after a resize whose width query failed is still cut to 10 bytes. *)
Lemma failed_query_keeps_truncating :
  ~ failed_query_disables_truncation 1 unit.
Proof.
  intros H.
  specialize (H plain (10, true) [] 0 "ABCDEFGHIJKLMNO" (fresh 10) eq_refl).
  vm_compute in H. discriminate H.
Qed.

Lemma unknown_width_no_truncation_witness :
  exists s,
    session 1 unit plain (0, false)
      [EvSigwinch (0, false); EvWrite "ninja: note"] = Ok s /\
    termWidth unit s = 0 /\
    statusLine unit "ABCDEFGHIJKLMNO" s =
    Ok (tt, with_output unit
              (writer unit s ++ rendered (firstLine "ABCDEFGHIJKLMNO"))
              false s).
Proof.
  eexists. split; [vm_compute; reflexivity|]. split.
  - apply (proj1 (proj2 (unknown_width_no_truncation 1 unit)) plain
             (0, false)
             [EvSigwinch (0, false); EvWrite "ninja: note"]);
      [reflexivity | repeat constructor | vm_compute; reflexivity].
  - apply (proj1 (unknown_width_no_truncation 1 unit)). cbn. lia.
Defined.

(** ** Concrete runs of the further properties *)

Definition early_build : list (event unit) :=
  [EvStartAction compile_foo tt; EvWrite "ninja: note";
   EvMessage 1 "Running"].

Definition two_resizes : list (event unit) :=
  [EvSigwinch (120, true); EvStartAction compile_foo tt;
   EvSigwinch (0, false); EvFlush; EvSigwinch (40, true)].

Definition busy_calls : list (call unit) :=
  [CallStartAction (Some compile_foo) tt; CallWrite "ninja: note";
   Resize (0, false);
   CallFinishAction
     {| ActionPtr := Some compile_foo; OutputArg := "foo.c:1: warning";
        ErrorArg := None |} tt;
   CallMessage 1 "Running"; CallFlush].

Lemma panics_are_nil_action_or_repeated_Flush_witness :
  (exists s, call_session 1 unit plain (80, true) busy_calls = Ok s) /\
  call_session 1 unit plain (80, true) (busy_calls ++ [CallFlush]) =
  Panic CloseOfClosedChannel /\
  call_session 1 unit plain (80, true)
    (busy_calls ++ [CallStartAction None tt]) =
  Panic NilPointerDereference /\
  (NilPointerDereference = CloseOfClosedChannel /\
   (2 <= call_flushes (busy_calls ++ [CallStartAction None tt]))%nat \/
   NilPointerDereference = NilPointerDereference /\
   existsb nil_action (busy_calls ++ [CallStartAction None tt]) = true).
Proof.
  split; [|split; [|split; [vm_compute; reflexivity|]]].
  - apply (proj1 (panics_are_nil_action_or_repeated_Flush 1 unit plain
                    (80, true) busy_calls)); [reflexivity | cbn; lia].
  - apply (proj1 (proj2 (panics_are_nil_action_or_repeated_Flush 1 unit
                           plain (80, true) (busy_calls ++ [CallFlush]))));
      [reflexivity | cbn; lia].
  - apply (proj2 (proj2 (panics_are_nil_action_or_repeated_Flush 1 unit
                           plain (80, true)
                           (busy_calls ++ [CallStartAction None tt])))).
    vm_compute. reflexivity.
Defined.

Lemma sink_append_only_witness :
  exists s2,
    session 1 unit plain (80, true) (early_build ++ two_resizes) = Ok s2 /\
    exists s1 d,
      session 1 unit plain (80, true) early_build = Ok s1 /\
      writer unit s2 = writer unit s1 ++ d.
Proof.
  eexists. split; [vm_compute; reflexivity|].
  apply (sink_append_only 1 unit plain (80, true) early_build two_resizes).
  vm_compute. reflexivity.
Defined.

Lemma termWidth_after_session_witness :
  exists s,
    session 1 unit plain (80, true) two_resizes = Ok s /\
    termWidth unit s = 120 /\ fmtr unit s = plain.
Proof.
  eexists. split; [vm_compute; reflexivity|].
  apply (termWidth_after_session 1 unit plain (80, true) two_resizes).
  vm_compute. reflexivity.
Defined.

Lemma Flush_commits_witness :
  exists s,
    session 1 unit plain (80, true) (early_build ++ [EvFlush]) = Ok s /\
    exists s0,
      session 1 unit plain (80, true) early_build = Ok s0 /\
      writer unit s =
        writer unit s0 ++ (if haveBlankLine unit s0 then "" else LF) /\
      haveBlankLine unit s = true /\
      on_blank_line (writer unit s) /\
      sigwinchNotify unit s = false /\ sigwinchClosed unit s = true /\
      termWidth unit s = termWidth unit s0.
Proof.
  eexists. split; [vm_compute; reflexivity|].
  apply (Flush_commits 1 unit plain (80, true) early_build).
  vm_compute. reflexivity.
Defined.

Lemma Write_lines_verbatim_witness :
  run 1 unit (map EvWrite ["one"; ""; "two" ++ LF]) (fresh 80) =
  Ok (tt, set_writer unit
            (writer unit (fresh 80) ++
             String.concat "" (map permanent ["one"; ""; "two" ++ LF]))
            (fresh 80)) /\
  permanent "one" = "one" ++ LF /\
  permanent ("two" ++ LF) = "two" ++ LF.
Proof.
  split; [|split].
  - apply (proj2 (Write_lines_verbatim 1 unit)). reflexivity.
  - apply (proj2 (proj1 (Write_lines_verbatim 1 unit) "one")).
    intros [p E]. destruct p as [|a [|b [|c [|d p]]]]; discriminate E.
  - apply (proj1 (proj1 (Write_lines_verbatim 1 unit) ("two" ++ LF))).
    now exists "two".
Defined.

Lemma status_line_is_last_witness :
  exists s,
    session 1 unit plain (80, true) early_build = Ok s /\
    haveBlankLine unit s = false /\
    exists out shown,
      writer unit s = out ++ CR ++ boldOn ++ shown ++ boldOff ++ clearEOL /\
      ~ contains_newline shown.
Proof.
  eexists. split; [vm_compute; reflexivity|]. split; [reflexivity|].
  apply (status_line_is_last 1 unit plain (80, true) early_build).
  - vm_compute. reflexivity.
  - reflexivity.
Defined.

Lemma elide_needs_positive_width_witness :
  elide unit "abc" (fresh (-1)) = Panic SliceBoundsOutOfRange /\
  elide unit "abc" (fresh 0) = Ok ("", fresh 0).
Proof.
  split.
  - apply (proj1 (elide_needs_positive_width unit "abc" (fresh (-1)))).
    cbn. lia.
  - apply (proj1 (proj2 (elide_needs_positive_width unit "abc" (fresh 0)))).
    reflexivity.
Defined.
